(** * verify_edit_route.py: the "edit route name" browser scenario

    A shallow embedding of [jules-scratch/verification/verify_edit_route.py].
    The script is a straight line of thirteen calls on a Playwright [Page];
    the first call that raises ends it.  The definitions come in layers:

    - [Text]: the text matching the script's locators and assertions rely on
      (Python [re] patterns applied by search, case folding, white-space
      normalisation, substring test);
    - [Api]: the locators and calls the script builds, with every keyword
      argument the script passes or leaves at its default;
    - [Script]: an error-and-log monad over an abstract driver, and the
      script itself, statement for statement;
    - [Browser]: a reference model of the driver (a page as a list of
      elements, the application under test as a reaction function, the disk
      as a finite map) following Playwright's documented behaviour;
    - [Demo]: small sample applications on which the script is run.

    The properties follow, in the same order.

    Strings are byte strings: the letters, digits and white space that the
    script's literals use are ASCII. *)

From Stdlib Require Import Ascii String ZArith Lia.
From stdpp Require Import base option list strings gmap.

Local Open Scope Z_scope.

(* ===================================================================== *)
(** ** Text matching *)
(* ===================================================================== *)

Module Text.

(** [str.startswith], on the head of [s]. *)
Fixpoint starts_with (p s : string) : bool :=
  match p, s with
  | EmptyString, _ => true
  | String a p', String b s' => Ascii.eqb a b && starts_with p' s'
  | String _ _, EmptyString => false
  end.

(** JavaScript [s.includes(needle)] / Python [needle in s]. *)
Fixpoint includes (s needle : string) : bool :=
  starts_with needle s
  || match s with
     | EmptyString => false
     | String _ s' => includes s' needle
     end.

(** [\d] as the driver evaluates it: the ten ASCII digits. *)
Definition is_digit (c : ascii) : bool :=
  let n := nat_of_ascii c in (48 <=? n)%nat && (n <=? 57)%nat.

(** [\s]: space, tab, line feed, vertical tab, form feed, carriage return. *)
Definition is_space (c : ascii) : bool :=
  let n := nat_of_ascii c in
  (n =? 32)%nat || ((9 <=? n)%nat && (n <=? 13)%nat).

Definition is_upper (c : ascii) : bool :=
  let n := nat_of_ascii c in (65 <=? n)%nat && (n <=? 90)%nat.

Definition to_lower (c : ascii) : ascii :=
  if is_upper c then ascii_of_nat (nat_of_ascii c + 32) else c.

(** [toLowerCase] on ASCII text. *)
Fixpoint lower (s : string) : string :=
  match s with
  | EmptyString => EmptyString
  | String c s' => String (to_lower c) (lower s')
  end.

(** The driver's [normalizeWhiteSpace]: trim, then every run of white
    space becomes one space.  [started] says a visible character has been
    emitted, [pending] that white space was seen since. *)
Fixpoint squeeze (started pending : bool) (s : string) : string :=
  match s with
  | EmptyString => EmptyString
  | String c s' =>
      if is_space c then squeeze started started s'
      else if pending
           then String " "%char (String c (squeeze true false s'))
           else String c (squeeze true false s')
  end.

Definition normalize_ws (s : string) : string := squeeze false false s.

(** *** Regular expressions (the fragment of Python's [re] the script uses) *)

Inductive regex : Type :=
| Never                       (* matches nothing; only arises in derivatives *)
| Eps                         (* the empty pattern *)
| Lit (c : ascii)             (* an ordinary or escaped character: a, \/ *)
| Digit                       (* \d *)
| Seq (r1 r2 : regex)         (* r1 r2 *)
| Alt (r1 r2 : regex)         (* r1|r2 *)
| Star (r : regex)            (* r* *)
| Plus (r : regex).           (* r+ *)

(** A literal run of characters. *)
Fixpoint lit (s : string) : regex :=
  match s with
  | EmptyString => Eps
  | String c s' => Seq (Lit c) (lit s')
  end.

Fixpoint nullable (r : regex) : bool :=
  match r with
  | Never | Lit _ | Digit => false
  | Eps | Star _ => true
  | Seq r1 r2 => nullable r1 && nullable r2
  | Alt r1 r2 => nullable r1 || nullable r2
  | Plus r => nullable r
  end.

(** Brzozowski derivative: what is left of [r] after reading [c]. *)
Fixpoint deriv (c : ascii) (r : regex) : regex :=
  match r with
  | Never | Eps => Never
  | Lit a => if Ascii.eqb a c then Eps else Never
  | Digit => if is_digit c then Eps else Never
  | Seq r1 r2 =>
      if nullable r1
      then Alt (Seq (deriv c r1) r2) (deriv c r2)
      else Seq (deriv c r1) r2
  | Alt r1 r2 => Alt (deriv c r1) (deriv c r2)
  | Star r => Seq (deriv c r) (Star r)
  | Plus r => Seq (deriv c r) (Star r)
  end.

(** [re.fullmatch]. *)
Fixpoint fullmatch (r : regex) (s : string) : bool :=
  match s with
  | EmptyString => nullable r
  | String c s' => fullmatch (deriv c r) s'
  end.

(** [re.match]: some prefix of [s] matches. *)
Fixpoint match_prefix (r : regex) (s : string) : bool :=
  nullable r
  || match s with
     | EmptyString => false
     | String c s' => match_prefix (deriv c r) s'
     end.

(** [re.search] / JavaScript [RegExp.test]: a match may start anywhere. *)
Fixpoint search (r : regex) (s : string) : bool :=
  match_prefix r s
  || match s with
     | EmptyString => false
     | String _ s' => search r s'
     end.

(** The language of a pattern, as a relation. *)
Inductive matches : regex -> string -> Prop :=
| MEps : matches Eps EmptyString
| MLit c : matches (Lit c) (String c EmptyString)
| MDigit c : is_digit c = true -> matches Digit (String c EmptyString)
| MSeq r1 r2 s1 s2 :
    matches r1 s1 -> matches r2 s2 -> matches (Seq r1 r2) (s1 +:+ s2)
| MAltL r1 r2 s : matches r1 s -> matches (Alt r1 r2) s
| MAltR r1 r2 s : matches r2 s -> matches (Alt r1 r2) s
| MStarNil r : matches (Star r) EmptyString
| MStarApp r s1 s2 :
    matches r s1 -> matches (Star r) s2 -> matches (Star r) (s1 +:+ s2)
| MPlus r s1 s2 :
    matches r s1 -> matches (Star r) s2 -> matches (Plus r) (s1 +:+ s2).

End Text.

(* ===================================================================== *)
(** ** The driver's interface, as the script uses it *)
(* ===================================================================== *)

Module Api.
Import Text.

(** A [name=] or text argument is a Python [str] or a compiled pattern. *)
Inductive pattern : Type :=
| Str (s : string)
| Re (r : regex).

(** Locators are descriptions; nothing is looked up until a call uses one.
    [exact = None] is a keyword argument left out. *)
Inductive Locator : Type :=
| locator (selector : string)
| get_by_role (role : string) (name : option pattern) (exact : option bool)
| get_by_label (text : pattern) (exact : option bool)
| get_by_text (text : pattern) (exact : option bool)
| first (l : Locator).

(** The calls that reach the driver. *)
Inductive call : Type :=
| goto (url : string)
| click (target : Locator) (position : option (Z * Z))
| fill (target : Locator) (value : string)
| to_have_url (url_or_reg_ex : pattern)
| to_be_visible (target : Locator)
| screenshot (path : option string) (full_page : option bool).

(** What a call can raise: Playwright's [TimeoutError] and [Error], and
    the [AssertionError] of [expect]. *)
Inductive exn : Type :=
| TimeoutError
| Error
| AssertionError.

(** The spec's taxonomy of steps. *)
Inductive kind : Type := Action | Assertion | Capture.

Definition kind_of (c : call) : kind :=
  match c with
  | goto _ | click _ _ | fill _ _ => Action
  | to_have_url _ | to_be_visible _ => Assertion
  | screenshot _ _ => Capture
  end.

Definition is_screenshot (c : call) : bool :=
  match c with screenshot _ _ => true | _ => false end.

(** A call either completes or raises; the world may have changed in
    both cases. *)
Inductive result (W : Type) : Type :=
| Done (w : W)
| Raise (e : exn) (w : W).
Arguments Done {W} w.
Arguments Raise {W} e w.

Definition world_of {W} (r : result W) : W :=
  match r with Done w | Raise _ w => w end.

Definition raised {W} (r : result W) : option exn :=
  match r with Done _ => None | Raise e _ => Some e end.

(** The [Page] the test function receives. *)
Class Driver (W : Type) : Type := perform : call -> W -> result W.

End Api.

(* ===================================================================== *)
(** ** The script *)
(* ===================================================================== *)

Module Script.
Import Text Api.

(** The state of a run: the world behind the driver, and the calls issued
    so far with what each reported ([None]: completed). *)
Record run_state (W : Type) : Type := RunState {
  world : W;
  log : list (call * option exn)
}.
Arguments RunState {W} world log.
Arguments world {W} r.
Arguments log {W} r.

Inductive outcome (A : Type) : Type :=
| Returned (a : A)
| Raised (e : exn).
Arguments Returned {A} a.
Arguments Raised {A} e.

(** Python statements: state is threaded, an exception skips the rest. *)
Definition M (W A : Type) : Type := run_state W -> outcome A * run_state W.

#[global] Instance M_ret {W} : MRet (M W) := fun A a st => (Returned a, st).

#[global] Instance M_bind {W} : MBind (M W) := fun A B k m st =>
  match m st with
  | (Returned a, st') => k a st'
  | (Raised e, st') => (Raised e, st')
  end.

Section WithDriver.
Context {W : Type} {drv : Driver W}.

(** One call on the page. *)
Definition invoke (c : call) : M W () := fun st =>
  match perform c (world st) with
  | Done w' => (Returned (), RunState w' (log st ++ [(c, None)]))
  | Raise e w' => (Raised e, RunState w' (log st ++ [(c, Some e)]))
  end.

(** [re.compile("Edit route")] *)
Definition edit_route_re : regex := lit "Edit route".

(** [re.compile(r"\/routes\/edit\/\d+")]; [\/] is an escaped [/]. *)
Definition edit_url_re : regex := Seq (lit "/routes/edit/") (Plus Digit).

(** [def test_edit_route_name(page: Page)] *)
Definition test_edit_route_name : M W () :=
  (* 1. Arrange *)
  invoke (goto "http://localhost:5174/routes/create") ;;
  invoke (click (locator "#map") (Some (100, 100))) ;;
  invoke (click (locator "#map") (Some (200, 200))) ;;
  invoke (click (get_by_role "button" (Some (Str "Save")) None) None) ;;
  invoke (goto "http://localhost:5174/routes") ;;
  (* 2. Act *)
  let edit_button :=
    first (get_by_role "link" (Some (Re edit_route_re)) None) in
  invoke (click edit_button None) ;;
  (* 3. Assert *)
  invoke (to_have_url (Re edit_url_re)) ;;
  invoke (to_be_visible
            (get_by_role "heading" (Some (Str "Edit Route")) None)) ;;
  (* 4. Act *)
  let name_input := get_by_label (Str "Name") None in
  invoke (fill name_input "New Route Name") ;;
  (* 5. Act *)
  let save_button :=
    get_by_role "button" (Some (Str "Save Changes")) None in
  invoke (click save_button None) ;;
  (* 6. Assert *)
  invoke (to_be_visible
            (get_by_role "heading" (Some (Str "Saved Routes")) None)) ;;
  invoke (to_be_visible (get_by_text (Str "New Route Name") None)) ;;
  (* 7. Screenshot *)
  invoke (screenshot
            (Some "jules-scratch/verification/verification.png") None).

(** A run starts with an empty log. *)
Definition run (w : W) : outcome () * run_state W :=
  test_edit_route_name (RunState w []).

(** Running a list of calls one after the other. *)
Fixpoint run_calls (cs : list call) : M W () :=
  match cs with
  | [] => mret ()
  | c :: cs' => invoke c ;; run_calls cs'
  end.

(** The worlds reached when every call of [cs] completes. *)
Fixpoint all_done (cs : list call) (w : W) : option W :=
  match cs with
  | [] => Some w
  | c :: cs' =>
      match perform c w with
      | Done w' => all_done cs' w'
      | Raise _ _ => None
      end
  end.

End WithDriver.

(** The twelve steps of the scenario; the second one is two clicks. *)
Definition scenario : list (list call) :=
  [ [goto "http://localhost:5174/routes/create"];
    [click (locator "#map") (Some (100, 100));
     click (locator "#map") (Some (200, 200))];
    [click (get_by_role "button" (Some (Str "Save")) None) None];
    [goto "http://localhost:5174/routes"];
    [click (first (get_by_role "link" (Some (Re edit_route_re)) None)) None];
    [to_have_url (Re edit_url_re)];
    [to_be_visible (get_by_role "heading" (Some (Str "Edit Route")) None)];
    [fill (get_by_label (Str "Name") None) "New Route Name"];
    [click (get_by_role "button" (Some (Str "Save Changes")) None) None];
    [to_be_visible (get_by_role "heading" (Some (Str "Saved Routes")) None)];
    [to_be_visible (get_by_text (Str "New Route Name") None)];
    [screenshot (Some "jules-scratch/verification/verification.png") None] ].

Definition calls : list call := concat scenario.

(** The log entry of a call that completed. *)
Definition completed (c : call) : call * option exn := (c, None).

(** The call a run stopped at, when it raised. *)
Definition failed_call {W} (st : run_state W) : option call :=
  match last (log st) with
  | Some (c, Some _) => Some c
  | _ => None
  end.

Definition calls_issued {W} (st : run_state W) : list call :=
  map fst (log st).
Definition responses {W} (st : run_state W) : list (option exn) :=
  map snd (log st).

End Script.

(* ===================================================================== *)
(** ** A reference model of the driver *)
(* ===================================================================== *)

(** The driver and the application under test are external to the
    repository.  This module fixes what the script's calls mean, after
    Playwright's documentation: a call acts on the settled page (waiting and
    time-outs are abstracted to "the element never shows up"), a locator
    used by an action or an assertion is strict unless narrowed by [first],
    string arguments match by case-insensitive substring unless
    [exact=True], patterns match by search, [fill] replaces the value,
    [screenshot] captures the viewport unless [full_page=True] and
    [path=] writes the image file. *)

Module Browser.
Import Text Api.

Record element : Type := Element {
  el_id : string;               (* the id attribute *)
  el_role : string;             (* ARIA role *)
  el_name : string;             (* accessible name *)
  el_label : option string;     (* text of the label tied to a control *)
  el_text : string;             (* text content *)
  el_value : string;            (* value of a form control *)
  el_hidden : bool;             (* left out of the accessibility tree *)
  el_visible : bool;            (* has a box and is not visibility:hidden *)
  el_enabled : bool;
  el_editable : bool
}.

Record page_state : Type := PageState {
  url : string;
  dom : list element;                 (* in document order *)
  viewport_pixels : list Byte.byte;   (* what the window shows *)
  full_page_pixels : list Byte.byte   (* the whole scrollable page *)
}.

(** The application under test: how it answers a navigation (or refuses
    the connection) and a click. *)
Record App : Type := {
  navigate : string -> page_state -> option page_state;
  on_click : element -> option (Z * Z) -> page_state -> page_state
}.

Record machine : Type := Machine {
  page : page_state;
  disk : gmap string (list Byte.byte)
}.

(** How a [str] or pattern argument is tested against a text. *)
Definition text_matches (p : pattern) (exact : option bool) (s : string)
  : bool :=
  match p with
  | Re r => search r (normalize_ws s)
  | Str q =>
      if default false exact
      then String.eqb (normalize_ws s) (normalize_ws q)
      else includes (lower (normalize_ws s)) (lower (normalize_ws q))
  end.

(** CSS selectors: the model knows [#id]. *)
Definition by_css (selector : string) (e : element) : bool :=
  match selector with
  | String "#"%char id => String.eqb (el_id e) id
  | _ => false
  end.

Definition by_role (role : string) (name : option pattern)
    (exact : option bool) (e : element) : bool :=
  String.eqb (el_role e) role
  && negb (el_hidden e)
  && match name with
     | None => true
     | Some p => text_matches p exact (el_name e)
     end.

Definition by_label (text : pattern) (exact : option bool) (e : element)
  : bool :=
  match el_label e with
  | Some l => text_matches text exact l
  | None => false
  end.

Definition by_text (text : pattern) (exact : option bool) (e : element)
  : bool :=
  text_matches text exact (el_text e).

(** Positions, counted from [i], of the elements that satisfy [f]. *)
Fixpoint positions (f : element -> bool) (i : nat) (d : list element)
  : list nat :=
  match d with
  | [] => []
  | e :: d' =>
      if f e then i :: positions f (S i) d' else positions f (S i) d'
  end.

(** The elements a locator denotes, in document order. *)
Fixpoint resolve (l : Locator) (d : list element) : list nat :=
  match l with
  | locator selector => positions (by_css selector) 0 d
  | get_by_role role name exact => positions (by_role role name exact) 0 d
  | get_by_label text exact => positions (by_label text exact) 0 d
  | get_by_text text exact => positions (by_text text exact) 0 d
  | first l' => take 1 (resolve l' d)
  end.

(** Strictness: exactly one element, else the call raises [missing]
    (none) or [Error] (several). *)
Definition the_one (missing : exn) (l : Locator) (d : list element)
  : exn + (nat * element) :=
  match resolve l d with
  | [] => inl missing
  | [i] =>
      match d !! i with
      | Some e => inr (i, e)
      | None => inl missing
      end
  | _ :: _ :: _ => inl Error
  end.

Definition set_value (v : string) (e : element) : element :=
  Element (el_id e) (el_role e) (el_name e) (el_label e) (el_text e)
          v (el_hidden e) (el_visible e) (el_enabled e) (el_editable e).

Definition set_dom (d : list element) (p : page_state) : page_state :=
  PageState (url p) d (viewport_pixels p) (full_page_pixels p).

(** Every PNG file starts with these eight bytes; the rest of the
    container is the payload. *)
Definition png_signature : list Byte.byte :=
  [Byte.x89; Byte.x50; Byte.x4e; Byte.x47;
   Byte.x0d; Byte.x0a; Byte.x1a; Byte.x0a].

Definition png (pixels : list Byte.byte) : list Byte.byte :=
  png_signature ++ pixels.

(** What [screenshot] captures. *)
Definition capture (full_page : option bool) (p : page_state)
  : list Byte.byte :=
  png (if default false full_page
       then full_page_pixels p
       else viewport_pixels p).

(** What the edit locator is after: a link of the accessibility tree whose
    name has the text of the pattern in it, letter case as written. *)
Definition edit_link (e : element) : Prop :=
  el_role e = "link"
  /\ el_hidden e = false
  /\ exists pre post, normalize_ws (el_name e) = pre +:+ "Edit route" +:+ post.

Section WithApp.
Variable app : App.

Definition perform_call (c : call) (w : machine) : result machine :=
  let p := page w in
  match c with
  | goto u =>
      match navigate app u p with
      | Some p' => Done (Machine p' (disk w))
      | None => Raise Error w
      end
  | click l position =>
      match the_one TimeoutError l (dom p) with
      | inr (_, e) =>
          if el_visible e && el_enabled e
          then Done (Machine (on_click app e position p) (disk w))
          else Raise TimeoutError w
      | inl err => Raise err w
      end
  | fill l v =>
      match the_one TimeoutError l (dom p) with
      | inr (i, e) =>
          if el_visible e && el_enabled e && el_editable e
          then Done (Machine (set_dom (alter (set_value v) i (dom p)) p)
                           (disk w))
          else Raise TimeoutError w
      | inl err => Raise err w
      end
  | to_have_url pat =>
      let ok := match pat with
                | Re r => search r (url p)
                | Str u => String.eqb (url p) u
                end in
      if ok then Done w else Raise AssertionError w
  | to_be_visible l =>
      match the_one AssertionError l (dom p) with
      | inr (_, e) =>
          if el_visible e then Done w else Raise AssertionError w
      | inl err => Raise err w
      end
  | screenshot path full_page =>
      match path with
      | Some f => Done (Machine p (<[f := capture full_page p]> (disk w)))
      | None => Done w
      end
  end.

Definition playwright : Driver machine := perform_call.

End WithApp.

End Browser.

(* ===================================================================== *)
(** ** Sample applications, to run the script on *)
(* ===================================================================== *)

Module Demo.
Import Text Api Script Browser.

Definition create_url : string := "http://localhost:5174/routes/create".
Definition list_url : string := "http://localhost:5174/routes".
Definition edit_url : string := "http://localhost:5174/routes/edit/1".

(** A visible, enabled element that is not a form control. *)
Definition widget (id role name text : string) : element :=
  Element id role name None text "" false true true false.

Definition heading (text : string) : element :=
  widget "" "heading" text text.

Definition button (text : string) : element :=
  widget "" "button" text text.

Definition route_row (name : string) : list element :=
  [ widget "" "listitem" "" name;
    widget "" "link" ("Edit route " +:+ name) "" ].

Definition name_input (value : string) : element :=
  Element "name" "textbox" "Name" (Some "Name") "" value
          false true true true.

Definition create_page : page_state :=
  PageState create_url
    [ widget "map" "application" "Map" ""; button "Save" ]
    [Byte.x01] [Byte.x01; Byte.x02].

Definition list_page (names : list string) : page_state :=
  PageState list_url
    (heading "Saved Routes" :: concat (map route_row names))
    [Byte.x03] [Byte.x03; Byte.x04].

Definition edit_page (name : string) : page_state :=
  PageState edit_url
    [ heading "Edit Route"; name_input name; button "Save Changes" ]
    [Byte.x05] [Byte.x05; Byte.x06].

(** The text typed in the control labelled Name. *)
Definition typed_name (p : page_state) : string :=
  match filter (fun e => el_label e = Some "Name") (dom p) with
  | e :: _ => el_value e
  | [] => ""
  end.

(** How the sample application behaves: as the scenario expects; it keeps
    listing the old name next to the new one; it saved no route. *)
Inductive behaviour : Type := Healthy | KeepsOldName | NoRoutes.

Definition demo_app (b : behaviour) : App := {|
  navigate u _ :=
    if String.eqb u create_url then Some create_page
    else if String.eqb u list_url
         then Some (list_page match b with
                              | NoRoutes => []
                              | _ => ["Route 1"]
                              end)
         else None;
  on_click e _ p :=
    if String.eqb (el_role e) "link" then edit_page "Route 1"
    else if String.eqb (el_name e) "Save Changes"
         then list_page match b with
                        | KeepsOldName => [typed_name p; "Route 1"]
                        | _ => [typed_name p]
                        end
         else p
|}.

Definition blank : page_state := PageState "about:blank" [] [] [].

(** A fresh session; the disk may already hold an older screenshot. *)
Definition start (files : gmap string (list Byte.byte)) : machine :=
  Machine blank files.

Definition demo_run (b : behaviour) (files : gmap string (list Byte.byte))
  : outcome () * run_state machine :=
  run (drv := playwright (demo_app b)) (start files).

(** A session that shows the given elements at the given address. *)
Definition showing (u : string) (d : list element) : machine :=
  Machine (PageState u d [] []) ∅.

(** A driver that completes every call and keeps no state. *)
Definition agreeable : Driver () := fun _ w => Done w.

(** A driver that refuses the [n]-th call it receives. *)
Definition refusing : Driver nat := fun _ n =>
  match n with
  | O => Raise TimeoutError O
  | S n' => Done n'
  end.

Definition screenshot_path : string :=
  "jules-scratch/verification/verification.png".

(** A disk on which an earlier run left its screenshot. *)
Definition stale_disk : gmap string (list Byte.byte) :=
  {[ screenshot_path := [Byte.x00; Byte.x00] ]}.

(** A row that shows the name the route had before the edit. *)
Definition old_row : element := widget "" "listitem" "" "Route 1".

End Demo.

(* ===================================================================== *)
(** ** Reading the calls of the script *)
(* ===================================================================== *)

Module Targets.
Import Text Api Script Browser Demo.

(** The locator a call acts on, when it has one. *)
Definition target_of (c : call) : option Locator :=
  match c with
  | click l _ | fill l _ | to_be_visible l => Some l
  | goto _ | to_have_url _ | screenshot _ _ => None
  end.

(** A locator that was not narrowed by [first]. *)
Definition strict (l : Locator) : bool :=
  match l with
  | first _ => false
  | _ => true
  end.

(** A call that acts on a locator that was not narrowed. *)
Definition strict_call (c : call) : bool :=
  match target_of c with
  | Some l => strict l
  | None => false
  end.

(** The test a locator applies to an element; [first] keeps the test and
    only limits how many elements are taken. *)
Fixpoint selects (l : Locator) (e : element) : bool :=
  match l with
  | locator selector => by_css selector e
  | get_by_role role name exact => by_role role name exact e
  | get_by_label text exact => by_label text exact e
  | get_by_text text exact => by_text text exact e
  | first l' => selects l' e
  end.

(** What a process is started with: its command line, its environment
    variables and its configuration files. *)
Record process : Type := Process {
  argv : list string;
  environ : gmap string string;
  config_files : gmap string string
}.

(** A disk with a file that is not the screenshot. *)
Definition notes_disk : gmap string (list Byte.byte) :=
  {[ "notes.txt" := [Byte.x01] ]}.

(** An application that cannot be reached. *)
Definition offline_app : App := {|
  navigate _ _ := None;
  on_click _ _ p := p
|}.

(** An application on which the scenario ran before: it lists the newest
    route first, and the route renamed by the earlier run is still there. *)
Definition second_run_app : App := {|
  navigate u _ :=
    if String.eqb u create_url then Some create_page
    else if String.eqb u list_url
         then Some (list_page ["Route 2"; "New Route Name"])
         else None;
  on_click e _ p :=
    if String.eqb (el_role e) "link" then edit_page "Route 2"
    else if String.eqb (el_name e) "Save Changes"
         then list_page [typed_name p; "New Route Name"]
         else p
|}.

End Targets.

(* ===================================================================== *)
(** * Properties *)
(* ===================================================================== *)

(** ** Strings and patterns *)

Module TextFacts.
Import Text.

(* stdpp keeps [+:+] folded; the proofs below compute with it. *)
#[local] Arguments String.append !s1 s2 /.

Lemma append_assoc (a b c : string) : (a +:+ b) +:+ c = a +:+ b +:+ c.
Proof. induction a as [|x a IH]; cbn; [reflexivity | now f_equal]. Qed.

Lemma append_empty_r (a : string) : a +:+ "" = a.
Proof. induction a as [|x a IH]; cbn; [reflexivity | now f_equal]. Qed.

Lemma append_eq_empty (a b : string) : a +:+ b = "" -> a = "" /\ b = "".
Proof. destruct a; simpl; [intros ->; split; reflexivity | discriminate]. Qed.

Lemma starts_with_spec (p s : string) :
  starts_with p s = true <-> exists post, s = p +:+ post.
Proof.
  revert s. induction p as [|a p IH]; intros s; simpl.
  - split; [intros _; now exists s | reflexivity].
  - destruct s as [|b s].
    + split; [discriminate | intros [post H]; discriminate].
    + rewrite andb_true_iff, Ascii.eqb_eq, IH. split.
      * intros [-> [post ->]]. now exists post.
      * intros [post [= -> ->]]. split; [reflexivity | now exists post].
Qed.

Lemma includes_spec (s needle : string) :
  includes s needle = true
  <-> exists pre post, s = pre +:+ needle +:+ post.
Proof.
  induction s as [|c s IH].
  - simpl. rewrite orb_false_r, starts_with_spec. split.
    + intros [post ->]. now exists "", post.
    + intros [pre [post H]]. symmetry in H.
      apply append_eq_empty in H as [-> H]. simpl. now exists post.
  - cbn [includes]. rewrite orb_true_iff, starts_with_spec, IH. split.
    + intros [[post ->] | [pre [post ->]]].
      * now exists "", post.
      * now exists (String c pre), post.
    + intros [[|x pre] [post H]]; simpl in H.
      * left. now exists post.
      * right. injection H as _ ->. now exists pre, post.
Qed.

(** *** The pattern matcher agrees with the language of the pattern *)

Lemma nullable_spec (r : regex) : nullable r = true <-> matches r "".
Proof.
  split.
  - induction r; simpl; intros H; try discriminate.
    + constructor.
    + apply andb_true_iff in H as [H1 H2].
      apply (MSeq _ _ "" ""); auto.
    + apply orb_true_iff in H as [H|H];
        [apply MAltL | apply MAltR]; auto.
    + constructor.
    + apply (MPlus _ "" ""); [auto | constructor].
  - remember ""%string as e eqn:E. intros H.
    induction H; simpl; try discriminate; try reflexivity.
    + apply append_eq_empty in E as [-> ->].
      rewrite IHmatches1, IHmatches2; reflexivity.
    + rewrite IHmatches by assumption. reflexivity.
    + rewrite IHmatches by assumption. apply orb_true_r.
    + apply append_eq_empty in E as [-> ->]. auto.
Qed.

Lemma deriv_sound (c : ascii) (r : regex) (s : string) :
  matches (deriv c r) s -> matches r (String c s).
Proof.
  revert s. induction r; intros s H; simpl in H.
  - inversion H.
  - inversion H.
  - destruct (Ascii.eqb_spec c0 c) as [->|]; inversion H; subst. constructor.
  - destruct (is_digit c) eqn:D; inversion H; subst. now constructor.
  - destruct (nullable r1) eqn:N.
    + inversion H as [| | | | ? ? ? HL | ? ? ? HR | | | ]; subst.
      * inversion HL; subst.
        apply (MSeq r1 r2 (String c s1) s2); auto.
      * apply (MSeq r1 r2 "" (String c s)); auto.
        now apply nullable_spec.
    + inversion H; subst.
      apply (MSeq r1 r2 (String c s1) s2); auto.
  - inversion H; subst; [apply MAltL | apply MAltR]; auto.
  - inversion H; subst.
    apply (MStarApp r (String c s1) s2); auto.
  - inversion H; subst.
    apply (MPlus r (String c s1) s2); auto.
Qed.

Lemma deriv_complete (c : ascii) (r : regex) (s : string) :
  matches r (String c s) -> matches (deriv c r) s.
Proof.
  remember (String c s) as t eqn:E. intros H. revert s E.
  induction H as [ | a | a D | r1 r2 s1 s2 H1 IH1 H2 IH2
                 | r1 r2 t H1 IH1 | r1 r2 t H2 IH2 | r
                 | r s1 s2 H1 IH1 H2 IH2 | r s1 s2 H1 IH1 H2 IH2 ];
    intros u E; try discriminate.
  - injection E as -> <-. simpl. rewrite Ascii.eqb_refl. constructor.
  - injection E as -> <-. simpl. rewrite D. constructor.
  - simpl. destruct s1 as [|x s1]; simpl in E.
    + assert (N : nullable r1 = true) by now apply nullable_spec.
      rewrite N. apply MAltR. auto.
    + injection E as -> <-.
      assert (M : matches (Seq (deriv c r1) r2) (s1 +:+ s2))
        by (constructor; auto).
      destruct (nullable r1); [now apply MAltL | assumption].
  - simpl. apply MAltL. auto.
  - simpl. apply MAltR. auto.
  - destruct s1 as [|x s1]; simpl in E.
    + auto.
    + injection E as -> <-. simpl. constructor; auto.
  - destruct s1 as [|x s1]; simpl in E.
    + apply (IH2 u E).
    + injection E as -> <-. simpl. constructor; auto.
Qed.

Lemma fullmatch_spec (r : regex) (s : string) :
  fullmatch r s = true <-> matches r s.
Proof.
  revert r. induction s as [|c s IH]; intros r; simpl.
  - apply nullable_spec.
  - rewrite IH. split; [apply deriv_sound | apply deriv_complete].
Qed.

Lemma match_prefix_spec (r : regex) (s : string) :
  match_prefix r s = true
  <-> exists m post, s = m +:+ post /\ matches r m.
Proof.
  revert r. induction s as [|c s IH]; intros r; cbn [match_prefix];
    rewrite orb_true_iff.
  - split.
    + intros [N | F]; [| discriminate].
      exists "", "". split; [reflexivity | now apply nullable_spec].
    + intros [m [post [E M]]]. symmetry in E.
      apply append_eq_empty in E as [-> _]. left. now apply nullable_spec.
  - rewrite IH. split.
    + intros [N | [m [post [-> M]]]].
      * exists "", (String c s). split; [reflexivity|now apply nullable_spec].
      * exists (String c m), post. split; [reflexivity|].
        now apply deriv_sound.
    + intros [[|x m] [post [E M]]]; simpl in E.
      * left. now apply nullable_spec.
      * injection E as <- ->. right. exists m, post.
        split; [reflexivity | now apply deriv_complete].
Qed.

Lemma search_spec (r : regex) (s : string) :
  search r s = true
  <-> exists pre m post, s = pre +:+ m +:+ post /\ matches r m.
Proof.
  induction s as [|c s IH]; cbn [search];
    rewrite orb_true_iff, match_prefix_spec.
  - split.
    + intros [[m [post [E M]]] | F]; [| discriminate].
      now exists "", m, post.
    + intros [pre [m [post [E M]]]]. left. symmetry in E.
      apply append_eq_empty in E as [-> E]. now exists m, post.
  - rewrite IH. split.
    + intros [[m [post [E M]]] | [pre [m [post [E M]]]]].
      * now exists "", m, post.
      * exists (String c pre), m, post. simpl. now rewrite E.
    + intros [[|x pre] [m [post [E M]]]]; simpl in E.
      * left. now exists m, post.
      * injection E as <- ->. right. now exists pre, m, post.
Qed.

Lemma matches_lit (p m : string) : matches (lit p) m <-> m = p.
Proof.
  split.
  - revert m. induction p as [|c p IH]; intros m H; simpl in H.
    + now inversion H.
    + inversion H as [| | | ? ? s1 s2 H1 H2 | | | | | ]; subst.
      inversion H1; subst. simpl. f_equal. auto.
  - intros ->. induction p as [|c p IH]; simpl.
    + constructor.
    + apply (MSeq (Lit c) (lit p) (String c "") p); [constructor | auto].
Qed.

Lemma search_lit (p s : string) :
  search (lit p) s = true <-> exists pre post, s = pre +:+ p +:+ post.
Proof.
  rewrite search_spec. split.
  - intros [pre [m [post [E M]]]]. apply matches_lit in M as ->.
    now exists pre, post.
  - intros [pre [post E]]. exists pre, p, post.
    split; [assumption | now apply matches_lit].
Qed.

Lemma matches_plus_digit (m : string) :
  matches (Plus Digit) m ->
  exists d rest, m = String d rest /\ is_digit d = true.
Proof.
  intros H. inversion H as [| | | | | | | | ? s1 s2 H1 H2]; subst.
  inversion H1; subst. simpl. eauto.
Qed.

(** The URL pattern of the script, spelled out. *)
Lemma search_edit_url (u : string) :
  search (Seq (lit "/routes/edit/") (Plus Digit)) u = true
  <-> exists pre d post,
        is_digit d = true /\ u = pre +:+ "/routes/edit/" +:+ String d post.
Proof.
  rewrite search_spec. split.
  - intros [pre [m [post [E M]]]].
    inversion M as [| | | ? ? s1 s2 H1 H2 | | | | | ]; subst.
    apply (matches_lit "/routes/edit/") in H1 as ->.
    apply matches_plus_digit in H2 as [d [rest [-> D]]].
    exists pre, d, (rest +:+ post). split; [assumption|].
    now rewrite append_assoc.
  - intros [pre [d [post [D ->]]]].
    exists pre, ("/routes/edit/" +:+ String d ""), post. split.
    + now rewrite append_assoc.
    + apply MSeq; [now apply matches_lit |].
      apply (MPlus Digit (String d "") ""); [now constructor | constructor].
Qed.

End TextFacts.

(** ** Sequencing: what a run of the script is *)

Module ScriptFacts.
Import Text Api Script.

Lemma pairs_eq {A B : Type} (l1 l2 : list (A * B)) :
  map fst l1 = map fst l2 -> map snd l1 = map snd l2 -> l1 = l2.
Proof.
  revert l2. induction l1 as [|[a b] l1 IH]; intros [|[a' b'] l2];
    cbn; try discriminate; [reflexivity |].
  intros [= -> E1] [= -> E2]. f_equal. auto.
Qed.

Lemma map_fst_completed (cs : list call) : map fst (map completed cs) = cs.
Proof. induction cs as [|c cs IH]; cbn; [reflexivity | now f_equal]. Qed.

Section AnyDriver.
Context {W : Type} {drv : Driver W}.

Lemma run_calls_cons (c : call) (cs : list call) (st : run_state W) :
  run_calls (c :: cs) st =
  match perform c (world st) with
  | Done w' => run_calls cs (RunState w' (log st ++ [completed c]))
  | Raise e w' => (Raised e, RunState w' (log st ++ [(c, Some e)]))
  end.
Proof.
  cbn [run_calls]. unfold mbind, M_bind, invoke.
  destruct (perform c (world st)); reflexivity.
Qed.

(** The function body is the thirteen calls of [calls], in order. *)
Lemma test_edit_route_name_calls (st : run_state W) :
  test_edit_route_name st = run_calls calls st.
Proof.
  unfold test_edit_route_name, calls, scenario. cbn [concat app run_calls].
  unfold mbind, M_bind, invoke, mret, M_ret.
  repeat (destruct (perform _ _); [| reflexivity]). reflexivity.
Qed.

Lemma run_calls_returned (cs : list call) (st st' : run_state W) :
  run_calls cs st = (Returned (), st')
  <-> all_done cs (world st) = Some (world st')
      /\ log st' = log st ++ map completed cs.
Proof.
  revert st. induction cs as [|c cs IH]; intros st.
  - cbn. unfold mret, M_ret. rewrite app_nil_r. split.
    + intros [= <-]. split; reflexivity.
    + destruct st, st'; cbn. intros [[= ->] ->]. reflexivity.
  - rewrite run_calls_cons. cbn [all_done map].
    destruct (perform c (world st)) as [w1 | e w1].
    + rewrite IH. cbn [world log]. rewrite <- app_assoc. reflexivity.
    + split; [discriminate | intros [? _]; discriminate].
Qed.

Lemma run_calls_raised (cs : list call) (st st' : run_state W) (e : exn) :
  run_calls cs st = (Raised e, st')
  <-> exists pre c post w1,
        cs = pre ++ c :: post
        /\ all_done pre (world st) = Some w1
        /\ perform c w1 = Raise e (world st')
        /\ log st' = log st ++ map completed pre ++ [(c, Some e)].
Proof.
  revert st. induction cs as [|c cs IH]; intros st.
  - cbn. unfold mret, M_ret. split; [discriminate |].
    intros (pre & c & post & w1 & E & _). now destruct pre.
  - rewrite run_calls_cons.
    destruct (perform c (world st)) as [w1 | e1 w1] eqn:P.
    + rewrite IH. cbn [world log]. split.
      * intros (pre & c' & post & w2 & -> & A & R & L).
        exists (c :: pre), c', post, w2. cbn [all_done map]. rewrite P.
        repeat split; try assumption. rewrite L, <- app_assoc. reflexivity.
      * intros (pre & c' & post & w2 & E & A & R & L).
        destruct pre as [|c0 pre]; cbn in E, A.
        -- injection E as <- <-. injection A as <-. congruence.
        -- injection E as <- ->. rewrite P in A.
           exists pre, c', post, w2. repeat split; try assumption.
           rewrite L. cbn [map]. rewrite <- app_assoc. reflexivity.
    + split.
      * intros [= <- <-]. exists [], c, cs, (world st).
        repeat split; assumption.
      * intros (pre & c' & post & w2 & E & A & R & L).
        destruct pre as [|c0 pre]; cbn in E, A.
        -- injection E as <- <-. injection A as <-.
           rewrite P in R. injection R as -> E.
           destruct st'; cbn in *. subst. reflexivity.
        -- injection E as <- ->. rewrite P in A. discriminate.
Qed.

Lemma all_done_app (cs1 cs2 : list call) (w : W) :
  all_done (cs1 ++ cs2) w
  = match all_done cs1 w with
    | Some w1 => all_done cs2 w1
    | None => None
    end.
Proof.
  revert w. induction cs1 as [|c cs1 IH]; intros w; cbn; [reflexivity |].
  destruct (perform c w); [apply IH | reflexivity].
Qed.

Lemma run_returned (w : W) (st : run_state W) :
  run w = (Returned (), st)
  <-> all_done calls w = Some (world st) /\ log st = map completed calls.
Proof.
  unfold run. rewrite test_edit_route_name_calls, run_calls_returned.
  reflexivity.
Qed.

Lemma run_raised (w : W) (st : run_state W) (e : exn) :
  run w = (Raised e, st)
  <-> exists pre c post w1,
        calls = pre ++ c :: post
        /\ all_done pre w = Some w1
        /\ perform c w1 = Raise e (world st)
        /\ log st = map completed pre ++ [(c, Some e)].
Proof.
  unfold run. rewrite test_edit_route_name_calls, run_calls_raised.
  reflexivity.
Qed.

(** The calls issued are always an initial segment of the script. *)
Lemma calls_issued_prefix (w : W) :
  calls_issued (run w).2 = take (length (log (run w).2)) calls.
Proof.
  destruct (run w) as [[[] | e] st] eqn:R; cbn [snd].
  - apply run_returned in R as [_ L]. unfold calls_issued. rewrite L.
    now rewrite length_map, firstn_all, map_fst_completed.
  - apply run_raised in R as (pre & c & post & w1 & E & _ & _ & L).
    unfold calls_issued. rewrite L, E, length_app, length_map. cbn [length].
    rewrite map_app, map_fst_completed. cbn [map fst].
    rewrite take_app_ge by lia.
    replace (length pre + 1 - length pre)%nat with 1%nat by lia.
    reflexivity.
Qed.

(** C5: whatever the driver does, the first call that raises ends the run
    with that exception, and none of the calls after it is issued; the run
    returns exactly when each of the thirteen calls (twelve steps, the last
    one the screenshot) completes in turn. *)
Theorem first_failure_ends_the_run (w : W) :
  length scenario = 12%nat
  /\ last calls
     = Some (screenshot
               (Some "jules-scratch/verification/verification.png") None)
  /\ (forall st,
        run w = (Returned (), st)
        <-> all_done calls w = Some (world st)
            /\ log st = map completed calls)
  /\ (forall e st,
        run w = (Raised e, st)
        <-> exists pre c post w1,
              calls = pre ++ c :: post
              /\ all_done pre w = Some w1
              /\ perform c w1 = Raise e (world st)
              /\ log st = map completed pre ++ [(c, Some e)]).
Proof.
  split; [reflexivity |]. split; [reflexivity |]. split.
  - intros st. apply run_returned.
  - intros e st. apply run_raised.
Qed.

End AnyDriver.

(** C8: the script takes nothing from its surroundings but the page.  The
    world [w] stands for everything outside the script (the browser, the
    application, and the arguments, environment and configuration of the
    process): none of it reaches a call.  The calls are the thirteen
    written out below, every address, point, role, name, text and path a
    literal of the source; a run issues the first [n] of them, [n] being
    the number of responses the driver gave.  So two runs to which the
    drivers report the same responses issue the same calls with the same
    arguments; in particular, starting the process with another command
    line, environment or configuration changes the calls only if it changes
    what the driver reports. *)
Theorem same_responses_same_calls {W1 W2 : Type}
    (d1 : Driver W1) (d2 : Driver W2) (w1 : W1) (w2 : W2) :
  calls
  = [ goto "http://localhost:5174/routes/create";
      click (locator "#map") (Some (100, 100));
      click (locator "#map") (Some (200, 200));
      click (get_by_role "button" (Some (Str "Save")) None) None;
      goto "http://localhost:5174/routes";
      click (first (get_by_role "link" (Some (Re (lit "Edit route"))) None))
            None;
      to_have_url (Re (Seq (lit "/routes/edit/") (Plus Digit)));
      to_be_visible (get_by_role "heading" (Some (Str "Edit Route")) None);
      fill (get_by_label (Str "Name") None) "New Route Name";
      click (get_by_role "button" (Some (Str "Save Changes")) None) None;
      to_be_visible (get_by_role "heading" (Some (Str "Saved Routes")) None);
      to_be_visible (get_by_text (Str "New Route Name") None);
      screenshot (Some "jules-scratch/verification/verification.png") None ]
  /\ calls_issued (run (drv := d1) w1).2
     = take (length (responses (run (drv := d1) w1).2)) calls
  /\ calls_issued (run (drv := d2) w2).2
     = take (length (responses (run (drv := d2) w2).2)) calls
  /\ (responses (run (drv := d1) w1).2 = responses (run (drv := d2) w2).2 ->
      calls_issued (run (drv := d1) w1).2
      = calls_issued (run (drv := d2) w2).2
      /\ log (run (drv := d1) w1).2 = log (run (drv := d2) w2).2)
  /\ (forall (W : Type) (d : Driver (Targets.process * W))
             (p p' : Targets.process) (w : W),
        responses (run (drv := d) (p, w)).2
        = responses (run (drv := d) (p', w)).2 ->
        calls_issued (run (drv := d) (p, w)).2
        = calls_issued (run (drv := d) (p', w)).2).
Proof.
  split; [reflexivity |].
  assert (P : forall (W : Type) (d : Driver W) (w : W),
             calls_issued (run (drv := d) w).2
             = take (length (responses (run (drv := d) w).2)) calls).
  { intros W d w. unfold responses. rewrite length_map.
    apply calls_issued_prefix. }
  split; [apply P |]. split; [apply P |]. split.
  - intros E.
    assert (C : calls_issued (run (drv := d1) w1).2
                = calls_issued (run (drv := d2) w2).2)
      by (now rewrite !P, E).
    split; [exact C |].
    now apply pairs_eq.
  - intros W d p p' w E. now rewrite !P, E.
Qed.

Section Files.
Context {W F : Type} {drv : Driver W}.

(** What is on disk, and the assumption that the driver writes files only
    when asked for a screenshot. *)
Variable files : W -> F.
Hypothesis only_screenshot_writes :
  forall (c : call) (w : W),
    is_screenshot c = false -> files (world_of (perform c w)) = files w.

Lemma all_done_keeps_files (cs : list call) (w w' : W) :
  Forall (fun c => is_screenshot c = false) cs ->
  all_done cs w = Some w' -> files w' = files w.
Proof.
  intros H. revert w. induction H as [|c cs Hc _ IH]; intros w; cbn.
  - now intros [= ->].
  - destruct (perform c w) as [w1|] eqn:P; [| discriminate].
    intros A. rewrite (IH _ A), <- (only_screenshot_writes c w Hc), P.
    reflexivity.
Qed.

(** C9: the screenshot is the last call, after every action and assertion.
    When a run stops because an action or an assertion raised, no
    screenshot call has been issued and the disk is as it was. *)
Theorem failed_run_leaves_no_screenshot
    (w : W) (e : exn) (st : run_state W) (c : call) :
  run w = (Raised e, st) ->
  failed_call st = Some c ->
  kind_of c = Action \/ kind_of c = Assertion ->
  (exists before shot,
      calls = before ++ [shot]
      /\ kind_of shot = Capture
      /\ Forall (fun c' => kind_of c' <> Capture) before)
  /\ Forall (fun c' => is_screenshot c' = false) (calls_issued st)
  /\ files (world st) = files w.
Proof.
  intros R Fc K. split.
  { eexists (take 12 calls), _. split; [reflexivity |]. split; [reflexivity |].
    cbn. repeat constructor; discriminate. }
  apply run_raised in R as (pre & c0 & post & w1 & E & A & P & L).
  assert (c0 = c) as ->.
  { unfold failed_call in Fc. rewrite L, last_snoc in Fc. congruence. }
  assert (N : Forall (fun c' => is_screenshot c' = false) (pre ++ [c])).
  { unfold calls, scenario in E. cbn [concat app] in E.
    do 13 (destruct pre as [|? pre];
           [ injection E as <- <-;
             first [ solve [repeat constructor]
                   | destruct K as [K|K]; discriminate K ]
           | injection E as <- E ]).
    destruct pre; discriminate E. }
  split.
  - unfold calls_issued. rewrite L, map_app, map_fst_completed. exact N.
  - apply Forall_app in N as [Npre Nc]. inversion Nc as [|? ? Hc _]; subst.
    rewrite <- (all_done_keeps_files pre w w1 Npre A).
    rewrite <- (only_screenshot_writes c w1 Hc), P. reflexivity.
Qed.

End Files.

End ScriptFacts.

(** ** The reference driver *)

Module BrowserFacts.
Import Text Api Script Browser TextFacts ScriptFacts.

Lemma positions_shift (f : element -> bool) (k : nat) (d : list element) :
  positions f (S k) d = map S (positions f k d).
Proof.
  revert k. induction d as [|e d IH]; intros k; cbn; [reflexivity |].
  rewrite IH. now destruct (f e).
Qed.

Lemma positions_app (f : element -> bool) (k : nat) (d1 d2 : list element) :
  positions f k (d1 ++ d2)
  = positions f k d1 ++ positions f (k + length d1) d2.
Proof.
  revert k. induction d1 as [|e d1 IH]; intros k; cbn.
  - now rewrite Nat.add_0_r.
  - rewrite IH, <- Nat.add_succ_comm. now destruct (f e).
Qed.

Lemma positions_none (f : element -> bool) (k : nat) (d : list element) :
  Forall (fun e => f e = false) d -> positions f k d = [].
Proof.
  intros H. revert k. induction H as [|e d He _ IH]; intros k; cbn.
  - reflexivity.
  - now rewrite He.
Qed.

Lemma positions_nil_inv (f : element -> bool) (k : nat) (d : list element) :
  positions f k d = [] -> Forall (fun e => f e = false) d.
Proof.
  revert k. induction d as [|e d IH]; intros k; cbn; [constructor |].
  destruct (f e) eqn:E; [discriminate |]. intros H. constructor; eauto.
Qed.

(** The positions are those of the elements that satisfy the test. *)
Lemma in_positions (f : element -> bool) (d : list element) (i : nat) :
  In i (positions f 0 d) <-> exists e, d !! i = Some e /\ f e = true.
Proof.
  revert i. induction d as [|e d IH]; intros i; cbn [positions].
  - split; [intros [] | intros [e [H _]]; discriminate].
  - rewrite positions_shift.
    assert (S_case : In i (map S (positions f 0 d))
                     <-> exists j, i = S j /\ In j (positions f 0 d)).
    { rewrite in_map_iff. split; intros [j [A B]]; exists j; auto. }
    destruct (f e) eqn:E; cbn [In]; rewrite S_case.
    + split.
      * intros [<- | [j [-> H]]]; [now exists e |]. now apply IH.
      * intros [x [L Fx]]. destruct i as [|j]; [now left |].
        right. exists j. split; [reflexivity |]. apply IH. now exists x.
    + split.
      * intros [j [-> H]]. now apply IH.
      * intros [x [L Fx]]. destruct i as [|j].
        -- cbn in L. congruence.
        -- exists j. split; [reflexivity |]. apply IH. now exists x.
Qed.

(** The first element that satisfies the test. *)
Lemma positions_first (f : element -> bool) (pre post : list element)
    (e : element) :
  Forall (fun x => f x = false) pre -> f e = true ->
  take 1 (positions f 0 (pre ++ e :: post)) = [length pre].
Proof.
  intros Hpre He. rewrite positions_app, (positions_none f 0 pre Hpre).
  cbn. now rewrite He.
Qed.

(** The only element that satisfies the test. *)
Lemma positions_only (f : element -> bool) (pre post : list element)
    (e : element) :
  Forall (fun x => f x = false) pre -> f e = true ->
  Forall (fun x => f x = false) post ->
  positions f 0 (pre ++ e :: post) = [length pre].
Proof.
  intros Hpre He Hpost. rewrite positions_app, (positions_none f 0 pre Hpre).
  cbn. now rewrite He, (positions_none f _ post Hpost).
Qed.

Lemma lookup_middle (pre post : list element) (e : element) :
  (pre ++ e :: post) !! length pre = Some e.
Proof. apply list_lookup_middle. reflexivity. Qed.

(** A string argument without [exact=True]: substring, case ignored. *)
Lemma text_matches_str (q s : string) :
  text_matches (Str q) None s = true
  <-> exists pre post,
        lower (normalize_ws s) = pre +:+ lower (normalize_ws q) +:+ post.
Proof. cbn. apply includes_spec. Qed.

(** A pattern argument: search, case kept. *)
Lemma text_matches_re_lit (q s : string) :
  text_matches (Re (lit q)) None s = true
  <-> exists pre post, normalize_ws s = pre +:+ q +:+ post.
Proof. cbn. apply search_lit. Qed.

Lemma by_role_spec (role : string) (p : pattern) (e : element) :
  by_role role (Some p) None e = true
  <-> el_role e = role /\ el_hidden e = false
      /\ text_matches p None (el_name e) = true.
Proof.
  unfold by_role. rewrite !andb_true_iff, String.eqb_eq, negb_true_iff.
  tauto.
Qed.

(** Only a screenshot touches the disk. *)
Lemma perform_call_keeps_disk (app : App) (c : call) (w : machine) :
  is_screenshot c = false ->
  disk (world_of (perform_call app c w)) = disk w.
Proof.
  destruct c as [u | l pos | l v | pat | l | path fp]; cbn;
    try discriminate; intros _.
  - now destruct (navigate app u (page w)).
  - destruct (the_one _ _ _) as [? | [? e]]; [reflexivity |].
    now destruct (el_visible e && el_enabled e).
  - destruct (the_one _ _ _) as [? | [? e]]; [reflexivity |].
    now destruct (el_visible e && el_enabled e && el_editable e).
  - now destruct pat as [u | r]; [destruct (String.eqb _ _)
                                 | destruct (search _ _)].
  - destruct (the_one _ _ _) as [? | [? e]]; [reflexivity |].
    now destruct (el_visible e).
Qed.

(** An assertion changes nothing. *)
Lemma to_be_visible_done (app : App) (l : Locator) (w w' : machine) :
  perform_call app (to_be_visible l) w = Done w'
  <-> w' = w
      /\ exists i e, resolve l (dom (page w)) = [i]
                     /\ dom (page w) !! i = Some e
                     /\ el_visible e = true.
Proof.
  cbn. unfold the_one.
  destruct (resolve l (dom (page w))) as [|i [|j rest]].
  - split; [discriminate | intros [_ (i & e & H & _)]; discriminate].
  - destruct (dom (page w) !! i) as [e|] eqn:L.
    + destruct (el_visible e) eqn:V.
      * split; [intros [= <-]; split; eauto | now intros [-> _]].
      * split; [discriminate |].
        intros [_ (i' & e' & [= <-] & L' & V')]. congruence.
    + split; [discriminate |].
      intros [_ (i' & e' & [= <-] & L' & V')]. congruence.
  - split; [discriminate | intros [_ (i' & e' & H & _)]; discriminate].
Qed.

(** *** The address assertion *)

(** C1 (as amended): the seventh call asserts the address against the
    unanchored pattern; it completes exactly when the address has
    [/routes/edit/] followed by a digit somewhere in it, and raises
    [AssertionError] otherwise.  What comes before or after is not looked
    at. *)
Theorem url_assertion_searches (app : App) (w : machine) :
  calls !! 6%nat = Some (to_have_url (Re edit_url_re))
  /\ (perform_call app (to_have_url (Re edit_url_re)) w = Done w
      <-> exists pre d post,
            is_digit d = true
            /\ url (page w) = pre +:+ "/routes/edit/" +:+ String d post)
  /\ (perform_call app (to_have_url (Re edit_url_re)) w = Done w
      \/ perform_call app (to_have_url (Re edit_url_re)) w
         = Raise AssertionError w).
Proof.
  split; [reflexivity |]. cbn [perform_call]. unfold edit_url_re.
  rewrite <- search_edit_url.
  destruct (search _ (url (page w))); split;
    try (split; [reflexivity | discriminate]); intuition discriminate.
Qed.

(** *** Role and label locators *)

(** C3 (as amended): the heading assertions are the eighth and eleventh
    calls; neither passes [exact=True].  A heading is selected when it is in
    the accessibility tree and its name, white space normalised and case
    ignored, has the text in it; the assertion completes exactly when one
    element is selected and that element is visible. *)
Theorem heading_assertions_match_substring
    (app : App) (w : machine) (t : string) :
  calls !! 7%nat
  = Some (to_be_visible (get_by_role "heading" (Some (Str "Edit Route")) None))
  /\ calls !! 10%nat
     = Some (to_be_visible
               (get_by_role "heading" (Some (Str "Saved Routes")) None))
  /\ lower (normalize_ws "Edit Route") = "edit route"
  /\ lower (normalize_ws "Saved Routes") = "saved routes"
  /\ (forall e,
        by_role "heading" (Some (Str t)) None e = true
        <-> el_role e = "heading"
            /\ el_hidden e = false
            /\ exists pre post,
                 lower (normalize_ws (el_name e))
                 = pre +:+ lower (normalize_ws t) +:+ post)
  /\ (forall i,
        In i (resolve (get_by_role "heading" (Some (Str t)) None)
                      (dom (page w)))
        <-> exists e,
              dom (page w) !! i = Some e
              /\ by_role "heading" (Some (Str t)) None e = true)
  /\ (forall w',
        perform_call app
          (to_be_visible (get_by_role "heading" (Some (Str t)) None)) w
        = Done w'
        <-> w' = w
            /\ exists i e,
                 resolve (get_by_role "heading" (Some (Str t)) None)
                         (dom (page w)) = [i]
                 /\ dom (page w) !! i = Some e
                 /\ el_visible e = true).
Proof.
  repeat (split; [reflexivity |]). split; [| split].
  - intros e. rewrite by_role_spec, text_matches_str. reflexivity.
  - intros i. apply in_positions.
  - intros w'. apply to_be_visible_done.
Qed.

(** C10: the control is found through its label by substring, case
    ignored: the locator denotes every element whose label, white space
    normalised and lowered, has [name] in it.  A label [Route Name] or
    [name] is selected as well as [Name]. *)
Theorem name_label_matches_substring (d : list element) (i : nat) :
  calls !! 8%nat
  = Some (fill (get_by_label (Str "Name") None) "New Route Name")
  /\ (In i (resolve (get_by_label (Str "Name") None) d)
      <-> exists e l,
            d !! i = Some e
            /\ el_label e = Some l
            /\ exists pre post,
                 lower (normalize_ws l) = pre +:+ "name" +:+ post)
  /\ text_matches (Str "Name") None "Route Name" = true
  /\ text_matches (Str "Name") None "name" = true
  /\ text_matches (Str "Name") None "Name" = true.
Proof.
  split; [reflexivity |]. split; [| repeat split; reflexivity].
  cbn [resolve]. rewrite in_positions. unfold by_label. split.
  - intros [e [L M]]. destruct (el_label e) as [l|] eqn:EL; [| discriminate].
    exists e, l. repeat split; try assumption.
    now apply (text_matches_str "Name").
  - intros (e & l & L & EL & M). exists e. split; [assumption |].
    rewrite EL. now apply (text_matches_str "Name").
Qed.

Lemma by_role_edit_link (e : element) :
  by_role "link" (Some (Re edit_route_re)) None e = true <-> edit_link e.
Proof.
  unfold edit_link, edit_route_re.
  rewrite by_role_spec, text_matches_re_lit. reflexivity.
Qed.

Lemma not_edit_link (d : list element) :
  Forall (fun x => ~ edit_link x) d ->
  Forall (fun x => by_role "link" (Some (Re edit_route_re)) None x = false) d.
Proof.
  intros H. induction H as [|x d N _ IH]; constructor; [| exact IH].
  destruct (by_role _ _ _ x) eqn:B; [| reflexivity].
  now apply by_role_edit_link in B.
Qed.

(** C6: the sixth call clicks [first] of the links whose name matches the
    pattern as written.  With such a link on the page the click goes to the
    first of them in document order; with none the call raises
    [TimeoutError], an action failure, and the run ends there: six calls
    issued, none of the seven that follow. *)
Theorem edit_link_first_or_failure (app : App) :
  let l := first (get_by_role "link" (Some (Re edit_route_re)) None) in
  calls !! 5%nat = Some (click l None)
  /\ kind_of (click l None) = Action
  /\ (forall e,
        by_role "link" (Some (Re edit_route_re)) None e = true
        <-> edit_link e)
  /\ text_matches (Re edit_route_re) None "Edit route Morning loop" = true
  /\ text_matches (Re edit_route_re) None "edit route Morning loop" = false
  /\ (forall w pre e post,
        dom (page w) = pre ++ e :: post ->
        Forall (fun x => ~ edit_link x) pre ->
        edit_link e ->
        perform_call app (click l None) w
        = if el_visible e && el_enabled e
          then Done (Machine (on_click app e None (page w)) (disk w))
          else Raise TimeoutError w)
  /\ (forall w0 w5,
        all_done (drv := playwright app) (take 5 calls) w0 = Some w5 ->
        Forall (fun x => ~ edit_link x) (dom (page w5)) ->
        run (drv := playwright app) w0
        = (Raised TimeoutError,
           RunState w5 (map completed (take 5 calls)
                        ++ [(click l None, Some TimeoutError)]))).
Proof.
  intros l. split; [reflexivity |]. split; [reflexivity |].
  split; [apply by_role_edit_link |].
  split; [reflexivity |]. split; [reflexivity |]. split.
  - intros w pre e post D Npre He.
    apply not_edit_link in Npre. apply by_role_edit_link in He.
    cbn [perform_call]. unfold the_one, l. cbn [resolve]. rewrite D.
    rewrite (positions_first _ pre post e Npre He), lookup_middle.
    reflexivity.
  - intros w0 w5 A N. apply not_edit_link in N.
    assert (P : perform (Driver := playwright app) (click l None) w5
                = Raise TimeoutError w5).
    { cbn. unfold the_one, l. cbn [resolve].
      now rewrite (positions_none _ 0 _ N). }
    apply (run_raised (drv := playwright app)).
    exists (take 5 calls), (click l None), (drop 6 calls), w5.
    repeat split; try assumption.
Qed.

(** *** Filling the name *)

(** Whenever a [fill] completes, one element was selected, it now holds
    the text, and nothing else on the page or on disk has changed. *)
Lemma fill_done_inv (app : App) (l : Locator) (v : string) (w w' : machine) :
  perform_call app (fill l v) w = Done w' ->
  exists i e,
    resolve l (dom (page w)) = [i]
    /\ dom (page w) !! i = Some e
    /\ dom (page w') !! i = Some (set_value v e)
    /\ (forall j, j <> i -> dom (page w') !! j = dom (page w) !! j)
    /\ disk w' = disk w.
Proof.
  cbn [perform_call]. unfold the_one.
  destruct (resolve l (dom (page w))) as [|i [|j rest]]; try discriminate.
  destruct (dom (page w) !! i) as [e|] eqn:L; [| discriminate].
  destruct (el_visible e && el_enabled e && el_editable e); [| discriminate].
  intros [= <-]. exists i, e. cbn [page dom disk set_dom].
  repeat split; try reflexivity; try assumption.
  - now rewrite list_lookup_alter_eq, L.
  - intros j N. now rewrite list_lookup_alter_ne by congruence.
Qed.

(** C7: the ninth call fills the control labelled [Name].  When the page
    has one such control and it can be edited, the call completes and the
    control holds exactly [New Route Name], whatever it held before; the
    rest of the page is as it was. *)
Theorem fill_replaces_the_value
    (app : App) (w : machine) (pre post : list element) (e : element) :
  dom (page w) = pre ++ e :: post ->
  by_label (Str "Name") None e = true ->
  Forall (fun x => by_label (Str "Name") None x = false) pre ->
  Forall (fun x => by_label (Str "Name") None x = false) post ->
  el_visible e && el_enabled e && el_editable e = true ->
  calls !! 8%nat
  = Some (fill (get_by_label (Str "Name") None) "New Route Name")
  /\ perform_call app
       (fill (get_by_label (Str "Name") None) "New Route Name") w
     = Done (Machine
               (set_dom (pre ++ set_value "New Route Name" e :: post)
                        (page w))
               (disk w))
  /\ el_value (set_value "New Route Name" e) = "New Route Name".
Proof.
  intros D He Hpre Hpost Ok. split; [reflexivity |].
  split; [| reflexivity].
  cbn [perform_call]. unfold the_one. cbn [resolve]. rewrite D.
  rewrite (positions_only _ pre post e Hpre He Hpost), lookup_middle, Ok.
  replace (length pre) with (length pre + 0)%nat by lia.
  rewrite alter_app_r. reflexivity.
Qed.

(** *** The last assertions and the screenshot *)

Lemma positions_offset (f : element -> bool) (k : nat) (d : list element) :
  positions f k d = map (fun i => (k + i)%nat) (positions f 0 d).
Proof.
  induction k as [|k IH].
  - cbn. now rewrite map_id.
  - rewrite positions_shift, IH, map_map. reflexivity.
Qed.

Lemma positions_lt (f : element -> bool) (d : list element) (i : nat) :
  In i (positions f 0 d) -> (i < length d)%nat.
Proof.
  intros H. apply in_positions in H as [e [L _]].
  now apply lookup_lt_Some in L.
Qed.

(** An element that a locator does not select can be added to the page or
    taken away: the locator finds what it found. *)
Lemma the_one_skip (m : exn) (l : Locator) (f : element -> bool)
    (pre post : list element) (e : element) :
  (forall d, resolve l d = positions f 0 d) ->
  f e = false ->
  sum_map id snd (the_one m l (pre ++ e :: post))
  = sum_map id snd (the_one m l (pre ++ post)).
Proof.
  intros R He. unfold the_one. rewrite !R, !positions_app.
  cbn [positions plus]. rewrite He, positions_shift.
  rewrite (positions_offset f (length pre) post).
  pose proof (positions_lt f pre) as Lt.
  destruct (positions f 0 pre) as [|a [|a' A]];
    destruct (positions f 0 post) as [|b [|b' B]]; cbn; try reflexivity.
  - rewrite !lookup_app_r by lia.
    replace (S (length pre + b) - length pre)%nat with (S b) by lia.
    replace (length pre + b - length pre)%nat with b by lia.
    cbn. now destruct (post !! b).
  - assert (a < length pre)%nat by (apply Lt; now left).
    rewrite !lookup_app_l by assumption. now destruct (pre !! a).
Qed.

Lemma to_be_visible_raised (app : App) (l : Locator) (w : machine) :
  raised (perform_call app (to_be_visible l) w)
  = match sum_map id snd (the_one AssertionError l (dom (page w))) with
    | inl err => Some err
    | inr x => if el_visible x then None else Some AssertionError
    end.
Proof.
  cbn. destruct (the_one _ _ _) as [err | [i x]]; cbn; [reflexivity |].
  now destruct (el_visible x).
Qed.

(** C2 (as amended): after saving, the script asserts a visible heading
    whose name has [Saved Routes] in it and a visible element whose text has
    [New Route Name] in it (case ignored), and then takes the screenshot.
    Nothing is asserted about any other text: an element that neither
    locator selects, such as a row that still shows the old name, may be on
    the page or not, and each of the last three calls reports the same. *)
Theorem old_name_is_not_checked
    (app : App) (u : string) (vp fp : list Byte.byte)
    (files : gmap string (list Byte.byte))
    (pre post : list element) (e : element) :
  by_role "heading" (Some (Str "Saved Routes")) None e = false ->
  by_text (Str "New Route Name") None e = false ->
  drop 10 calls
  = [ to_be_visible (get_by_role "heading" (Some (Str "Saved Routes")) None);
      to_be_visible (get_by_text (Str "New Route Name") None);
      screenshot (Some "jules-scratch/verification/verification.png") None ]
  /\ (forall x,
        by_text (Str "New Route Name") None x = true
        <-> exists a b,
              lower (normalize_ws (el_text x))
              = a +:+ "new route name" +:+ b)
  /\ Forall
       (fun c =>
          raised (perform_call app c
                    (Machine (PageState u (pre ++ e :: post) vp fp) files))
          = raised (perform_call app c
                      (Machine (PageState u (pre ++ post) vp fp) files)))
       (drop 10 calls).
Proof.
  intros Hh Ht. split; [reflexivity |]. split.
  - intros x. apply (text_matches_str "New Route Name").
  - repeat constructor.
    + rewrite !to_be_visible_raised. cbn [page dom].
      now rewrite (the_one_skip AssertionError
                     (get_by_role "heading" (Some (Str "Saved Routes")) None)
                     (by_role "heading" (Some (Str "Saved Routes")) None)
                     pre post e (fun d => eq_refl) Hh).
    + rewrite !to_be_visible_raised. cbn [page dom].
      now rewrite (the_one_skip AssertionError
                     (get_by_text (Str "New Route Name") None)
                     (by_text (Str "New Route Name") None)
                     pre post e (fun d => eq_refl) Ht).
Qed.

(** C4 (as amended): the last call passes [path=] and leaves [full_page]
    at its default.  After a run that returned, the file at the fixed path
    is the PNG image of the viewport of the final page: it starts with the
    PNG signature, so it is not empty, and it does not depend on what the
    file held before; no other file has changed. *)
Theorem screenshot_overwrites_with_viewport
    (app : App) (w : machine) (st : run_state machine) :
  run (drv := playwright app) w = (Returned (), st) ->
  last calls
  = Some (screenshot (Some "jules-scratch/verification/verification.png")
                     None)
  /\ disk (world st) !! "jules-scratch/verification/verification.png"
     = Some (png_signature ++ viewport_pixels (page (world st)))
  /\ (forall f,
        f <> "jules-scratch/verification/verification.png" ->
        disk (world st) !! f = disk w !! f).
Proof.
  intros R. split; [reflexivity |].
  apply (run_returned (drv := playwright app)) in R as [A _].
  change calls with (take 12 calls ++ drop 12 calls) in A.
  rewrite (all_done_app (drv := playwright app)) in A.
  destruct (all_done (take 12 calls) w) as [w12|] eqn:A12; [| discriminate].
  assert (D : disk w12 = disk w).
  { apply (all_done_keeps_files (drv := playwright app) disk
             (perform_call_keeps_disk app) (take 12 calls) w w12);
      [| exact A12].
    cbn. repeat constructor. }
  cbn in A. injection A as <-. cbn [world page disk]. split.
  - now rewrite lookup_insert_eq.
  - intros f N. now rewrite lookup_insert_ne, D by congruence.
Qed.

End BrowserFacts.

(** ** The script on the sample applications *)

Module Runs.
Import Text Api Script Browser Demo TextFacts ScriptFacts BrowserFacts.

(** The scenario passes on the application that behaves as expected. *)
Example healthy_run_returns :
  (demo_run Healthy ∅).1 = Returned ()
  /\ calls_issued (demo_run Healthy ∅).2 = calls
  /\ page (world (demo_run Healthy ∅).2) = list_page ["New Route Name"].
Proof. vm_compute. repeat split. Qed.

(** So it does on a driver that completes whatever it is asked. *)
Example agreeable_run_returns :
  run (drv := agreeable) () = (Returned (), RunState () (map completed calls)).
Proof. reflexivity. Qed.

(** Witness for C8: a driver that times out on its sixth call, and the
    reference driver on an application without routes. *)
Lemma same_responses_same_calls_witness :
  responses (run (drv := refusing) 5%nat).2
  = responses (demo_run NoRoutes ∅).2
  /\ calls_issued (run (drv := refusing) 5%nat).2
     = calls_issued (demo_run NoRoutes ∅).2.
Proof.
  split; [vm_compute; reflexivity |].
  apply (proj1 (proj2 (proj2 (proj2
           (same_responses_same_calls
              refusing (playwright (demo_app NoRoutes)) 5%nat (start ∅)))))).
  vm_compute. reflexivity.
Defined.

(** Witness for C9: without routes the click on the edit link times out;
    the older screenshot on disk is untouched. *)
Lemma failed_run_leaves_no_screenshot_witness :
  Forall (fun c' => is_screenshot c' = false)
         (calls_issued (demo_run NoRoutes stale_disk).2)
  /\ disk (world (demo_run NoRoutes stale_disk).2) = stale_disk.
Proof.
  apply (failed_run_leaves_no_screenshot
           (drv := playwright (demo_app NoRoutes)) disk
           (perform_call_keeps_disk (demo_app NoRoutes))
           (start stale_disk) TimeoutError
           (demo_run NoRoutes stale_disk).2
           (click (first (get_by_role "link" (Some (Re edit_route_re)) None))
                  None)).
  - vm_compute. reflexivity.
  - vm_compute. reflexivity.
  - left. reflexivity.
Defined.

(** Witness for C6: the run on the application without routes. *)
Lemma edit_link_first_or_failure_witness :
  demo_run NoRoutes ∅
  = (Raised TimeoutError,
     RunState (Machine (list_page []) ∅)
       (map completed (take 5 calls)
        ++ [(click (first (get_by_role "link" (Some (Re edit_route_re)) None))
                   None,
             Some TimeoutError)])).
Proof.
  apply (proj2 (proj2 (proj2 (proj2 (proj2 (proj2
           (edit_link_first_or_failure (demo_app NoRoutes)))))))).
  - vm_compute. reflexivity.
  - repeat constructor. intros [H _]. discriminate H.
Defined.

(** Witness for C7: the edit page of the sample application. *)
Lemma fill_replaces_the_value_witness :
  perform_call (demo_app Healthy)
    (fill (get_by_label (Str "Name") None) "New Route Name")
    (Machine (edit_page "Route 1") ∅)
  = Done (Machine (edit_page "New Route Name") ∅).
Proof.
  apply (fill_replaces_the_value (demo_app Healthy)
           (Machine (edit_page "Route 1") ∅)
           [heading "Edit Route"] [button "Save Changes"]
           (name_input "Route 1")).
  - reflexivity.
  - reflexivity.
  - repeat constructor.
  - repeat constructor.
  - reflexivity.
Defined.

(** Witness for C2: the list page after the edit, with and without a row
    that shows the old name. *)
Lemma old_name_is_not_checked_witness :
  Forall
    (fun c =>
       raised (perform_call (demo_app Healthy) c
                 (Machine (PageState list_url
                             ((heading "Saved Routes"
                               :: route_row "New Route Name")
                              ++ old_row :: [])
                             [] [])
                          ∅))
       = raised (perform_call (demo_app Healthy) c
                   (Machine (PageState list_url
                               ((heading "Saved Routes"
                                 :: route_row "New Route Name")
                                ++ [])
                               [] [])
                            ∅)))
    (drop 10 calls).
Proof.
  apply (old_name_is_not_checked (demo_app Healthy) list_url [] [] ∅
           (heading "Saved Routes" :: route_row "New Route Name") []
           old_row).
  - reflexivity.
  - reflexivity.
Defined.

(** Witness for C4: a passing run over a disk that holds an older
    screenshot. *)
Lemma screenshot_overwrites_with_viewport_witness :
  disk (world (demo_run Healthy stale_disk).2)
    !! "jules-scratch/verification/verification.png"
  = Some (png_signature
          ++ viewport_pixels (page (world (demo_run Healthy stale_disk).2))).
Proof.
  apply (screenshot_overwrites_with_viewport (demo_app Healthy)
           (start stale_disk) (demo_run Healthy stale_disk).2).
  vm_compute. reflexivity.
Defined.

(** The older file is gone: the new one is the signature and the pixels of
    the viewport, nothing of the two bytes that were there. *)
Example stale_screenshot_replaced :
  stale_disk !! screenshot_path = Some [Byte.x00; Byte.x00]
  /\ disk (world (demo_run Healthy stale_disk).2) !! screenshot_path
     = Some (png_signature ++ [Byte.x03]).
Proof. vm_compute. split; reflexivity. Qed.

(** Counterexample to C1 as stated: the address assertion completes on an
    address whose identifier is [12abc], and on one whose path has more
    around the pattern; neither path is [/routes/edit/] and digits. *)
Lemma url_assertion_accepts_non_numeric :
  fullmatch edit_url_re "/routes/edit/12abc" = false
  /\ perform_call (demo_app Healthy) (to_have_url (Re edit_url_re))
       (showing "http://localhost:5174/routes/edit/12abc" [])
     = Done (showing "http://localhost:5174/routes/edit/12abc" [])
  /\ fullmatch edit_url_re "/admin/routes/edit/7/delete" = false
  /\ perform_call (demo_app Healthy) (to_have_url (Re edit_url_re))
       (showing "http://localhost:5174/admin/routes/edit/7/delete" [])
     = Done (showing "http://localhost:5174/admin/routes/edit/7/delete" []).
Proof. repeat split; vm_compute; reflexivity. Qed.

(** Counterexample to C2 as stated: on the application that keeps listing
    the old name, the list page showed [Route 1] before the edit, the run
    returns, and the final page still shows [Route 1], visible. *)
Lemma run_passes_with_old_name_visible :
  all_done (drv := playwright (demo_app KeepsOldName)) (take 5 calls) (start ∅)
  = Some (Machine (list_page ["Route 1"]) ∅)
  /\ (demo_run KeepsOldName ∅).1 = Returned ()
  /\ dom (page (world (demo_run KeepsOldName ∅).2)) !! 3%nat = Some old_row
  /\ el_text old_row = "Route 1"
  /\ el_visible old_row = true.
Proof. repeat split; vm_compute; reflexivity. Qed.

(** Counterexample to C3 as stated: the heading assertions complete on
    headings that only contain the text, in another letter case. *)
Lemma heading_assertion_accepts_other_text :
  perform_call (demo_app Healthy)
    (to_be_visible (get_by_role "heading" (Some (Str "Edit Route")) None))
    (showing edit_url [heading "Bulk edit routes"])
  = Done (showing edit_url [heading "Bulk edit routes"])
  /\ perform_call (demo_app Healthy)
       (to_be_visible (get_by_role "heading" (Some (Str "Saved Routes")) None))
       (showing list_url [heading "NO SAVED ROUTES YET"])
     = Done (showing list_url [heading "NO SAVED ROUTES YET"]).
Proof. split; vm_compute; reflexivity. Qed.

(** Counterexample to C4 as stated: after a passing run the file holds the
    image of the viewport, which is not the image of the full page. *)
Lemma screenshot_is_the_viewport_only :
  (demo_run Healthy ∅).1 = Returned ()
  /\ disk (world (demo_run Healthy ∅).2) !! screenshot_path
     = Some (capture None (page (world (demo_run Healthy ∅).2)))
  /\ disk (world (demo_run Healthy ∅).2) !! screenshot_path
     <> Some (capture (Some true) (page (world (demo_run Healthy ∅).2))).
Proof.
  split; [vm_compute; reflexivity |].
  split; [vm_compute; reflexivity |].
  vm_compute. discriminate.
Qed.

End Runs.

(** ** More on the script: what it never does, and its edge cases *)

Module More.
Import Text Api Script Browser Demo Targets.
Import TextFacts ScriptFacts BrowserFacts.

Lemma calls_distinct : NoDup calls.
Proof.
  unfold calls, scenario. cbn [concat app].
  repeat (apply NoDup_cons_2;
          [ intros H; apply list_elem_of_In in H; cbn in H;
            intuition discriminate | ]).
  apply NoDup_nil_2.
Qed.

Lemma log_length_bounds {W : Type} {drv : Driver W} (w : W) :
  (1 <= length (log (run w).2) <= 13)%nat.
Proof.
  destruct (run w) as [[[] | e] st] eqn:R; cbn [snd].
  - apply run_returned in R as [_ ->]. cbn. lia.
  - apply run_raised in R as (pre & c & post & w1 & E & _ & _ & ->).
    apply (f_equal length) in E. rewrite length_app in E. cbn in E.
    rewrite length_app, length_map. cbn. lia.
Qed.

(** X1: nothing is tried again.  Whatever the driver reports, the run
    issues between one and thirteen calls and no call twice. *)
Theorem no_call_is_repeated {W : Type} (drv : Driver W) (w : W) :
  NoDup (calls_issued (run w).2)
  /\ (1 <= length (calls_issued (run w).2) <= 13)%nat.
Proof.
  split.
  - rewrite calls_issued_prefix. pose proof calls_distinct as D.
    rewrite <- (take_drop (length (log (run w).2)) calls) in D.
    now apply NoDup_app in D as [D _].
  - unfold calls_issued. rewrite length_map. apply log_length_bounds.
Qed.

(** X2: the script stays on the application.  Every run starts with the
    navigation to the create page, and the only addresses it ever navigates
    to are the create page and the list page of [localhost:5174]. *)
Theorem navigates_only_to_the_application
    {W : Type} (drv : Driver W) (w : W) :
  head (calls_issued (run w).2)
  = Some (goto "http://localhost:5174/routes/create")
  /\ Forall (fun c => forall u,
               c = goto u ->
               u = "http://localhost:5174/routes/create"
               \/ u = "http://localhost:5174/routes")
            (calls_issued (run w).2).
Proof.
  pose proof (log_length_bounds w) as B.
  rewrite calls_issued_prefix. split.
  - destruct (length (log (run w).2)); [lia | reflexivity].
  - apply Forall_take. unfold calls, scenario. cbn [concat app].
    repeat (apply Forall_cons; split;
            [ intros u E; try discriminate E; injection E as <-; auto | ]).
    constructor.
Qed.

(** X9: when the application cannot be reached, the first navigation
    raises [Error]; the run ends there, one call issued, and the session
    and the disk are as they were. *)
Theorem unreachable_application_fails_first (app : App) (w : machine) :
  navigate app "http://localhost:5174/routes/create" (page w) = None ->
  run (drv := playwright app) w
  = (Raised Error,
     RunState w [(goto "http://localhost:5174/routes/create", Some Error)]).
Proof.
  intros N. apply (run_raised (drv := playwright app)).
  exists [], (goto "http://localhost:5174/routes/create"), (drop 1 calls), w.
  repeat split. cbn. now rewrite N.
Qed.

Section Kept.
Context {W F : Type} {drv : Driver W}.
Variable g : W -> F.

Lemma run_calls_keeps (cs : list call) (st : run_state W) :
  Forall (fun c => forall w, g (world_of (perform c w)) = g w) cs ->
  g (world (run_calls cs st).2) = g (world st).
Proof.
  intros H. revert st. induction H as [|c cs Hc _ IH]; intros st.
  - reflexivity.
  - rewrite run_calls_cons. specialize (Hc (world st)).
    destruct (perform c (world st)) as [w1 | e w1]; cbn in Hc.
    + rewrite IH. exact Hc.
    + exact Hc.
Qed.

End Kept.

(** X7: whatever the application does and however the run ends, the only
    file the run can create or change is the screenshot: every other path
    holds after the run what it held before. *)
Theorem run_writes_only_the_screenshot
    (app : App) (w : machine) (f : string) :
  f <> "jules-scratch/verification/verification.png" ->
  disk (world (run (drv := playwright app) w).2) !! f = disk w !! f.
Proof.
  intros N. unfold run.
  rewrite (test_edit_route_name_calls (drv := playwright app)).
  apply (run_calls_keeps (drv := playwright app)
           (fun m => disk m !! f) calls (RunState w [])).
  unfold calls, scenario. cbn [concat Datatypes.app].
  repeat (apply Forall_cons; split;
          [ intros m; change perform with (perform_call app);
            first [ now rewrite perform_call_keeps_disk by reflexivity
                  | cbn; now rewrite lookup_insert_ne by congruence ] | ]).
  constructor.
Qed.

(** *** Locators that are not narrowed *)

(** X3: the button locators match by substring too, so every button the
    [Save Changes] locator selects is one the [Save] locator selects: the
    [Save] locator is after any button of the accessibility tree whose
    name, case ignored, has [save] in it. *)
Theorem save_locator_selects_save_changes (e : element) :
  calls !! 3%nat
  = Some (click (get_by_role "button" (Some (Str "Save")) None) None)
  /\ calls !! 9%nat
     = Some (click (get_by_role "button" (Some (Str "Save Changes")) None)
                   None)
  /\ (by_role "button" (Some (Str "Save")) None e = true
      <-> el_role e = "button"
          /\ el_hidden e = false
          /\ exists pre post,
               lower (normalize_ws (el_name e)) = pre +:+ "save" +:+ post)
  /\ (by_role "button" (Some (Str "Save Changes")) None e = true ->
      by_role "button" (Some (Str "Save")) None e = true).
Proof.
  split; [reflexivity |]. split; [reflexivity |]. split.
  - rewrite by_role_spec. now rewrite (text_matches_str "Save").
  - rewrite !by_role_spec. intros (R & H & M). repeat split; try assumption.
    apply (text_matches_str "Save Changes") in M as [pre [post M]].
    apply (text_matches_str "Save").
    exists pre, (" changes" +:+ post). exact M.
Qed.

Lemma resolve_strict (l : Locator) (d : list element) :
  strict l = true -> resolve l d = positions (selects l) 0 d.
Proof. destruct l; cbn; try reflexivity. discriminate. Qed.

Lemma two_hits (ps : list nat) (i j : nat) :
  i <> j -> In i ps -> In j ps -> exists a b rest, ps = a :: b :: rest.
Proof.
  intros N Hi Hj. destruct ps as [|a [|b rest]].
  - destruct Hi.
  - destruct Hi as [<- | []]. destruct Hj as [<- | []]. congruence.
  - eauto.
Qed.

Lemma the_one_ambiguous (m : exn) (l : Locator) (d : list element)
    (i j : nat) (ei ej : element) :
  strict l = true -> i <> j ->
  d !! i = Some ei -> d !! j = Some ej ->
  selects l ei = true -> selects l ej = true ->
  the_one m l d = inl Error.
Proof.
  intros S N Li Lj Si Sj. unfold the_one. rewrite (resolve_strict l d S).
  destruct (two_hits (positions (selects l) 0 d) i j N)
    as (a & b & rest & ->); try reflexivity;
    apply in_positions; eauto.
Qed.

(** X4: every locator of the script but the edit link is strict.  When two
    elements of the page pass its test, the call raises [Error], nothing is
    clicked, filled or asserted, and the session and the disk are as they
    were.  Eight of the thirteen calls are of this kind. *)
Theorem two_matches_raise
    (app : App) (c : call) (l : Locator) (w : machine)
    (i j : nat) (ei ej : element) :
  In c calls ->
  target_of c = Some l ->
  strict l = true ->
  i <> j ->
  dom (page w) !! i = Some ei ->
  dom (page w) !! j = Some ej ->
  selects l ei = true ->
  selects l ej = true ->
  perform_call app c w = Raise Error w
  /\ length (List.filter strict_call calls) = 8%nat.
Proof.
  intros _ T S N Li Lj Si Sj. split; [| reflexivity].
  destruct c; cbn in T; try discriminate; injection T as ->;
    cbn [perform_call];
    now rewrite (the_one_ambiguous _ l _ i j ei ej S N Li Lj Si Sj).
Qed.

(** X6: the text assertion is strict as well.  When the eleven calls
    before it complete and the page then has two elements whose text has
    [New Route Name] in it, as after an earlier run that was not cleaned up,
    the run raises [Error] at the twelfth call: no screenshot call is
    issued and the disk is as it was. *)
Theorem duplicate_name_fails_the_run
    (app : App) (w0 w11 : machine) (i j : nat) (ei ej : element) :
  all_done (drv := playwright app) (take 11 calls) w0 = Some w11 ->
  i <> j ->
  dom (page w11) !! i = Some ei ->
  dom (page w11) !! j = Some ej ->
  by_text (Str "New Route Name") None ei = true ->
  by_text (Str "New Route Name") None ej = true ->
  run (drv := playwright app) w0
  = (Raised Error,
     RunState w11
       (map completed (take 11 calls)
        ++ [(to_be_visible (get_by_text (Str "New Route Name") None),
             Some Error)]))
  /\ disk w11 = disk w0.
Proof.
  intros A N Li Lj Si Sj. split.
  - apply (run_raised (drv := playwright app)).
    exists (take 11 calls),
           (to_be_visible (get_by_text (Str "New Route Name") None)),
           (drop 12 calls), w11.
    repeat split; try assumption.
    change (perform_call app
              (to_be_visible (get_by_text (Str "New Route Name") None)) w11
            = Raise Error w11).
    cbn [perform_call].
    now rewrite (the_one_ambiguous AssertionError
                   (get_by_text (Str "New Route Name") None)
                   _ i j ei ej eq_refl N Li Lj Si Sj).
  - apply (all_done_keeps_files (drv := playwright app) disk
             (perform_call_keeps_disk app) (take 11 calls) w0 w11);
      [| exact A].
    cbn. repeat constructor.
Qed.

(** *** Actions that go through *)

Lemma click_only (app : App) (l : Locator) (position : option (Z * Z))
    (w : machine) (pre post : list element) (e : element) :
  strict l = true ->
  dom (page w) = pre ++ e :: post ->
  selects l e = true ->
  Forall (fun x => selects l x = false) pre ->
  Forall (fun x => selects l x = false) post ->
  el_visible e && el_enabled e = true ->
  perform_call app (click l position) w
  = Done (Machine (on_click app e position (page w)) (disk w)).
Proof.
  intros S D He Hpre Hpost Ok. cbn [perform_call]. unfold the_one.
  rewrite (resolve_strict l _ S), D.
  now rewrite (positions_only _ pre post e Hpre He Hpost), lookup_middle, Ok.
Qed.

Lemma fill_only (app : App) (l : Locator) (v : string)
    (w : machine) (pre post : list element) (e : element) :
  strict l = true ->
  dom (page w) = pre ++ e :: post ->
  selects l e = true ->
  Forall (fun x => selects l x = false) pre ->
  Forall (fun x => selects l x = false) post ->
  el_visible e && el_enabled e && el_editable e = true ->
  perform_call app (fill l v) w
  = Done (Machine (set_dom (pre ++ set_value v e :: post) (page w)) (disk w)).
Proof.
  intros S D He Hpre Hpost Ok. cbn [perform_call]. unfold the_one.
  rewrite (resolve_strict l _ S), D.
  rewrite (positions_only _ pre post e Hpre He Hpost), lookup_middle, Ok.
  replace (length pre) with (length pre + 0)%nat by lia.
  now rewrite alter_app_r.
Qed.

Lemma not_map (d : list element) :
  Forall (fun x => el_id x <> "map") d ->
  Forall (fun x => selects (locator "#map") x = false) d.
Proof.
  intros H. induction H as [|x d N _ IH]; constructor; [| exact IH].
  cbn. now apply String.eqb_neq.
Qed.

(** X8: the two clicks on the map.  When the page has one element with id
    [map] that can be clicked, before the first click and after the
    application has answered it, both clicks complete and the application
    is handed the point (100, 100) and then the point (200, 200), each on
    that element; the disk is not touched. *)
Theorem map_clicks_in_order
    (app : App) (w : machine)
    (pre post pre1 post1 : list element) (e e1 : element) :
  dom (page w) = pre ++ e :: post ->
  el_id e = "map" ->
  Forall (fun x => el_id x <> "map") pre ->
  Forall (fun x => el_id x <> "map") post ->
  el_visible e && el_enabled e = true ->
  dom (on_click app e (Some (100, 100)) (page w)) = pre1 ++ e1 :: post1 ->
  el_id e1 = "map" ->
  Forall (fun x => el_id x <> "map") pre1 ->
  Forall (fun x => el_id x <> "map") post1 ->
  el_visible e1 && el_enabled e1 = true ->
  take 2 (drop 1 calls)
  = [ click (locator "#map") (Some (100, 100));
      click (locator "#map") (Some (200, 200)) ]
  /\ all_done (drv := playwright app) (take 2 (drop 1 calls)) w
     = Some (Machine
               (on_click app e1 (Some (200, 200))
                  (on_click app e (Some (100, 100)) (page w)))
               (disk w)).
Proof.
  intros D Id Npre Npost Ok D1 Id1 Npre1 Npost1 Ok1.
  split; [reflexivity |].
  apply not_map in Npre, Npost, Npre1, Npost1.
  assert (Se : selects (locator "#map") e = true)
    by (cbn; now apply String.eqb_eq).
  assert (Se1 : selects (locator "#map") e1 = true)
    by (cbn; now apply String.eqb_eq).
  change (take 2 (drop 1 calls))
    with [ click (locator "#map") (Some (100, 100));
           click (locator "#map") (Some (200, 200)) ].
  cbn [all_done]. change perform with (perform_call app).
  rewrite (click_only app (locator "#map") _ w pre post e
             eq_refl D Se Npre Npost Ok).
  now rewrite (click_only app (locator "#map") _
                 (Machine (on_click app e (Some (100, 100)) (page w))
                          (disk w))
                 pre1 post1 e1 eq_refl D1 Se1 Npre1 Npost1 Ok1).
Qed.

(** X5: filling the name and saving.  When the page has one control
    labelled with [name] in it that can be edited and, once it is filled,
    one [Save Changes] button that can be clicked, both calls complete and
    the application is handed the click on a page whose control holds
    exactly [New Route Name]. *)
Theorem typed_name_reaches_the_application
    (app : App) (w : machine)
    (pre post pre2 post2 : list element) (inp btn : element) :
  dom (page w) = pre ++ inp :: post ->
  by_label (Str "Name") None inp = true ->
  Forall (fun x => by_label (Str "Name") None x = false) pre ->
  Forall (fun x => by_label (Str "Name") None x = false) post ->
  el_visible inp && el_enabled inp && el_editable inp = true ->
  pre ++ set_value "New Route Name" inp :: post = pre2 ++ btn :: post2 ->
  by_role "button" (Some (Str "Save Changes")) None btn = true ->
  Forall (fun x => by_role "button" (Some (Str "Save Changes")) None x = false)
         pre2 ->
  Forall (fun x => by_role "button" (Some (Str "Save Changes")) None x = false)
         post2 ->
  el_visible btn && el_enabled btn = true ->
  take 2 (drop 8 calls)
  = [ fill (get_by_label (Str "Name") None) "New Route Name";
      click (get_by_role "button" (Some (Str "Save Changes")) None) None ]
  /\ all_done (drv := playwright app) (take 2 (drop 8 calls)) w
     = Some (Machine
               (on_click app btn None
                  (set_dom (pre ++ set_value "New Route Name" inp :: post)
                           (page w)))
               (disk w))
  /\ el_value (set_value "New Route Name" inp) = "New Route Name".
Proof.
  intros D Hi Hpre Hpost Ok D2 Hb Hpre2 Hpost2 Ok2.
  split; [reflexivity |]. split; [| reflexivity].
  change (take 2 (drop 8 calls))
    with [ fill (get_by_label (Str "Name") None) "New Route Name";
           click (get_by_role "button" (Some (Str "Save Changes")) None)
                 None ].
  cbn [all_done]. change perform with (perform_call app).
  rewrite (fill_only app (get_by_label (Str "Name") None) _ w pre post inp
             eq_refl D Hi Hpre Hpost Ok).
  now rewrite (click_only app
                 (get_by_role "button" (Some (Str "Save Changes")) None)
                 None
                 (Machine
                    (set_dom (pre ++ set_value "New Route Name" inp :: post)
                             (page w))
                    (disk w))
                 pre2 post2 btn eq_refl D2 Hb Hpre2 Hpost2 Ok2).
Qed.

End More.

(** ** The edge cases on the sample applications *)

Module MoreRuns.
Import Text Api Script Browser Demo Targets.
Import TextFacts ScriptFacts BrowserFacts More.

(** Witness for X9: the application that cannot be reached. *)
Lemma unreachable_application_fails_first_witness :
  run (drv := playwright offline_app) (start ∅)
  = (Raised Error,
     RunState (start ∅)
       [(goto "http://localhost:5174/routes/create", Some Error)]).
Proof.
  apply (unreachable_application_fails_first offline_app (start ∅)).
  reflexivity.
Defined.

(** Witness for X7: a passing run next to a file of the user's. *)
Lemma run_writes_only_the_screenshot_witness :
  disk (world (run (drv := playwright (demo_app Healthy))
                   (start notes_disk)).2)
    !! "notes.txt"
  = disk (start notes_disk) !! "notes.txt".
Proof.
  apply (run_writes_only_the_screenshot (demo_app Healthy)
           (start notes_disk) "notes.txt").
  discriminate.
Defined.

(** Witness for X4: a create page with a second button whose name has
    [save] in it. *)
Lemma two_matches_raise_witness :
  perform_call (demo_app Healthy)
    (click (get_by_role "button" (Some (Str "Save")) None) None)
    (showing create_url [button "Save"; button "Save as draft"])
  = Raise Error (showing create_url [button "Save"; button "Save as draft"]).
Proof.
  apply (two_matches_raise (demo_app Healthy)
           (click (get_by_role "button" (Some (Str "Save")) None) None)
           (get_by_role "button" (Some (Str "Save")) None)
           (showing create_url [button "Save"; button "Save as draft"])
           0%nat 1%nat (button "Save") (button "Save as draft")).
  - cbn. tauto.
  - reflexivity.
  - reflexivity.
  - discriminate.
  - reflexivity.
  - reflexivity.
  - reflexivity.
  - reflexivity.
Defined.

(** Witness for X6: the second run on an application that still lists the
    route the first run renamed. *)
Lemma duplicate_name_fails_the_run_witness :
  run (drv := playwright second_run_app) (start ∅)
  = (Raised Error,
     RunState
       (Machine (list_page ["New Route Name"; "New Route Name"]) ∅)
       (map completed (take 11 calls)
        ++ [(to_be_visible (get_by_text (Str "New Route Name") None),
             Some Error)])).
Proof.
  apply (duplicate_name_fails_the_run second_run_app (start ∅)
           (Machine (list_page ["New Route Name"; "New Route Name"]) ∅)
           1%nat 3%nat
           (widget "" "listitem" "" "New Route Name")
           (widget "" "listitem" "" "New Route Name")).
  - vm_compute. reflexivity.
  - discriminate.
  - reflexivity.
  - reflexivity.
  - reflexivity.
  - reflexivity.
Defined.

(** Witness for X8: the create page of the sample application. *)
Lemma map_clicks_in_order_witness :
  all_done (drv := playwright (demo_app Healthy)) (take 2 (drop 1 calls))
           (Machine create_page ∅)
  = Some (Machine create_page ∅).
Proof.
  apply (map_clicks_in_order (demo_app Healthy) (Machine create_page ∅)
           [] [button "Save"] [] [button "Save"]
           (widget "map" "application" "Map" "")
           (widget "map" "application" "Map" "")).
  - reflexivity.
  - reflexivity.
  - constructor.
  - repeat constructor. discriminate.
  - reflexivity.
  - reflexivity.
  - reflexivity.
  - constructor.
  - repeat constructor. discriminate.
  - reflexivity.
Defined.

(** Witness for X5: the edit page of the sample application. *)
Lemma typed_name_reaches_the_application_witness :
  all_done (drv := playwright (demo_app Healthy)) (take 2 (drop 8 calls))
           (Machine (edit_page "Route 1") ∅)
  = Some (Machine (list_page ["New Route Name"]) ∅).
Proof.
  apply (typed_name_reaches_the_application (demo_app Healthy)
           (Machine (edit_page "Route 1") ∅)
           [heading "Edit Route"] [button "Save Changes"]
           [heading "Edit Route"; name_input "New Route Name"] []
           (name_input "Route 1") (button "Save Changes")).
  - reflexivity.
  - reflexivity.
  - repeat constructor.
  - repeat constructor.
  - reflexivity.
  - reflexivity.
  - reflexivity.
  - repeat constructor.
  - constructor.
  - reflexivity.
Defined.

End MoreRuns.
